(** * Volatile register accessors of [pointer_access.h]

    The header consists of four [static inline] functions.  Each one casts
    a [uintptr_t] to a pointer to a [volatile] 8-bit or 16-bit object and
    performs one load or one store through it.

    The functions are embedded as computations in a state monad over a
    small machine: a byte-addressed read-write memory together with the
    log of the volatile accesses the program has issued.  Memory places no
    alignment restriction on a 16-bit access, and an access that falls
    outside it is answered by the bus alone: a store is dropped and a load
    sees the open-bus byte.  That answer is a convention of the model: the
    header fixes nothing about an address without memory behind it, and
    the theorems on what a read returns assume the bytes are there. *)

From Stdlib Require Import ZArith Lia.
From stdpp Require Import base option list gmap.

Local Open Scope Z_scope.

(** ** Target platform *)

Inductive endianness := LittleEndian | BigEndian.

(** What the header leaves to the target: the width of [uintptr_t], the
    byte order of a 16-bit object, and the byte a load observes at an
    address where no read-write memory answers. *)
Record platform := Platform {
  ptr_bits : Z;
  byte_order : endianness;
  open_bus : Z
}.

(** ** The integer types of [<stdint.h>]

    A value of an unsigned w-bit type is a [Z]; converting to the type
    reduces modulo [2 ^ w]. *)

Definition uint8_t (v : Z) : Z := v mod 2 ^ 8.
Definition uint16_t (v : Z) : Z := v mod 2 ^ 16.
Definition uintptr_t (P : platform) (a : Z) : Z := a mod 2 ^ ptr_bits P.

Definition is_uint8 (v : Z) : Prop := 0 <= v <= 255.
Definition is_uint16 (v : Z) : Prop := 0 <= v <= 65535.
Definition is_uintptr (P : platform) (a : Z) : Prop := 0 <= a < 2 ^ ptr_bits P.

(** ** Machine state *)

Inductive width := W8 | W16.

(** One volatile access, as seen on the bus: its direction, its width and
    its address (and the value, for a store). *)
Inductive access :=
| Load (w : width) (a : Z)
| Store (w : width) (a : Z) (v : Z).

Definition access_width (e : access) : width :=
  match e with
  | Load w _ => w
  | Store w _ _ => w
  end.

(** [ram] holds one byte for every address backed by ordinary read-write
    memory and nothing elsewhere; [bus_log] is the sequence of accesses
    issued so far, oldest first. *)
Record machine := Machine {
  ram : gmap Z Z;
  bus_log : list access
}.

Definition access_count (m : machine) : nat := length (bus_log m).

(** A pointer to a volatile object: the pointee type fixes the width of
    every access through it. *)
Record vptr := VPtr {
  pointee : width;
  target : Z
}.

(** The addresses of the bytes an object of width [w] at [a] occupies. *)
Definition footprint (w : width) (a : Z) : list Z :=
  match w with
  | W8 => [a]
  | W16 => [a; a + 1]
  end.

Definition backed_byte (m : machine) (a : Z) : bool :=
  match ram m !! a with
  | Some _ => true
  | None => false
  end.

(** An access is backed when every byte of its footprint is. *)
Definition backed (m : machine) (w : width) (a : Z) : bool :=
  forallb (backed_byte m) (footprint w a).

(** ** State monad *)

Definition M (A : Type) : Type := machine -> A * machine.

Definition ret {A} (x : A) : M A := fun m => (x, m).

Definition bind {A B} (c : M A) (k : A -> M B) : M B :=
  fun m => let (x, m') := c m in k x m'.

Definition eval {A} (c : M A) (m : machine) : A := fst (c m).
Definition exec {A} (c : M A) (m : machine) : machine := snd (c m).

Declare Scope accessor_scope.
Delimit Scope accessor_scope with acc.
Notation "x <- c ;; k" := (bind c (fun x => k))
  (at level 100, c at next level, right associativity) : accessor_scope.
Notation "c ;; k" := (bind c (fun _ => k))
  (at level 100, right associativity) : accessor_scope.

Section Accessor.

Variable P : platform.

(** *** Memory *)

Definition byte_at (m : machine) (a : Z) : Z :=
  uint8_t (default (open_bus P) (ram m !! a)).

(** A store reaches a byte only where memory backs it. *)
Definition set_byte (a b : Z) (r : gmap Z Z) : gmap Z Z :=
  alter (fun _ => b) a r.

(** A 16-bit object occupies two consecutive bytes; the byte order says
    which half of the value lives at the lower address. *)
Definition join16 (b0 b1 : Z) : Z :=
  match byte_order P with
  | LittleEndian => b0 + 2 ^ 8 * b1
  | BigEndian => 2 ^ 8 * b0 + b1
  end.

Definition split16 (v : Z) : Z * Z :=
  match byte_order P with
  | LittleEndian => (v mod 2 ^ 8, v / 2 ^ 8)
  | BigEndian => (v / 2 ^ 8, v mod 2 ^ 8)
  end.

Definition mem_load (w : width) (a : Z) (m : machine) : Z :=
  match w with
  | W8 => byte_at m a
  | W16 => join16 (byte_at m a) (byte_at m (a + 1))
  end.

Definition mem_store (w : width) (a v : Z) (r : gmap Z Z) : gmap Z Z :=
  match w with
  | W8 => set_byte a v r
  | W16 => let (b0, b1) := split16 v in set_byte (a + 1) b1 (set_byte a b0 r)
  end.

(** *** Volatile lvalue access

    [*ptr] as an rvalue and [*ptr = value]: one access of the pointee's
    width, appended to the log as it is issued. *)

Definition issue (e : access) (r : gmap Z Z) (m : machine) : machine :=
  {| ram := r; bus_log := bus_log m ++ [e] |}.

Definition volatile_read (ptr : vptr) : M Z := fun m =>
  (mem_load (pointee ptr) (target ptr) m,
   issue (Load (pointee ptr) (target ptr)) (ram m) m).

Definition volatile_write (ptr : vptr) (value : Z) : M unit := fun m =>
  (tt,
   issue (Store (pointee ptr) (target ptr) value)
         (mem_store (pointee ptr) (target ptr) value (ram m)) m).

(** *** The four functions of the header *)

Definition _volatileRegisterReadUInt8 (address : Z) : M Z :=
  let address := uintptr_t P address in
  let ptr := VPtr W8 address in
  volatile_read ptr.

Definition _volatileRegisterWriteUInt8 (address value : Z) : M unit :=
  let address := uintptr_t P address in
  let value := uint8_t value in
  let ptr := VPtr W8 address in
  volatile_write ptr value.

Definition _volatileRegisterReadUInt16 (address : Z) : M Z :=
  let address := uintptr_t P address in
  let ptr := VPtr W16 address in
  volatile_read ptr.

Definition _volatileRegisterWriteUInt16 (address value : Z) : M unit :=
  let address := uintptr_t P address in
  let value := uint16_t value in
  let ptr := VPtr W16 address in
  volatile_write ptr value.

End Accessor.

(** ** Accesses issued by a computation *)

(** The part of the log a computation appends when run from [m]. *)
Definition issued_by {A} (c : M A) (m : machine) : list access :=
  drop (length (bus_log m)) (bus_log (exec c m)).

(** ** Well-formed memory *)

(** Every byte of memory holds a value of [uint8_t]. *)
Definition bytes_ok (r : gmap Z Z) : bool :=
  bool_decide (map_Forall (fun _ b => 0 <= b <= 255) r).

(** ** Straight-line callers *)

(** One call of one of the four functions, with its arguments. *)
Inductive call :=
| ReadUInt8 (address : Z)
| WriteUInt8 (address value : Z)
| ReadUInt16 (address : Z)
| WriteUInt16 (address value : Z).

(** A caller that makes the call and drops what a read returns. *)
Definition perform (P : platform) (c : call) : M unit :=
  match c with
  | ReadUInt8 a => (_volatileRegisterReadUInt8 P a ;; ret tt)%acc
  | WriteUInt8 a v => _volatileRegisterWriteUInt8 P a v
  | ReadUInt16 a => (_volatileRegisterReadUInt16 P a ;; ret tt)%acc
  | WriteUInt16 a v => _volatileRegisterWriteUInt16 P a v
  end.

(** A caller that makes the calls of a list one after the other. *)
Fixpoint perform_all (P : platform) (cs : list call) : M unit :=
  match cs with
  | [] => ret tt
  | c :: cs' => (perform P c ;; perform_all P cs')%acc
  end.

(** The access a call stands for in the source: its direction and width
    from the function, its address and value from the arguments as the
    parameters receive them. *)
Definition access_of (P : platform) (c : call) : access :=
  match c with
  | ReadUInt8 a => Load W8 (uintptr_t P a)
  | WriteUInt8 a v => Store W8 (uintptr_t P a) (uint8_t v)
  | ReadUInt16 a => Load W16 (uintptr_t P a)
  | WriteUInt16 a v => Store W16 (uintptr_t P a) (uint16_t v)
  end.

(** ** Concrete machines used in the examples *)

(** A 16-bit address space, little-endian, with [0xFF] on the open bus. *)
Definition mcu_le : platform := Platform 16 LittleEndian 255.

(** The same with the other byte order. *)
Definition mcu_be : platform := Platform 16 BigEndian 255.

(** Four bytes of zeroed memory at [0x0100 .. 0x0103], nothing logged. *)
Definition sram : machine :=
  Machine (<[256 := 0]> (<[257 := 0]> (<[258 := 0]> (<[259 := 0]> ∅)))) [].

(** The same memory after some earlier traffic. *)
Definition sram_used : machine :=
  Machine (ram sram) [Load W8 256; Store W16 258 0; Load W16 258].

(** Two bytes that differ, [0x34] at [0x0100] and [0x12] at [0x0101], so
    that the byte order of a 16-bit read shows. *)
Definition sram_word : machine :=
  Machine (<[256 := 0x34]> (<[257 := 0x12]> ∅)) [].

(** * Basic facts *)

Section Facts.

Variable P : platform.

Lemma uintptr_t_id a : is_uintptr P a -> uintptr_t P a = a.
Proof. intros H. unfold uintptr_t. apply Z.mod_small. exact H. Qed.

Lemma uint8_t_id v : is_uint8 v -> uint8_t v = v.
Proof. intros H. unfold uint8_t. apply Z.mod_small. unfold is_uint8 in H. lia. Qed.

Lemma uint16_t_id v : is_uint16 v -> uint16_t v = v.
Proof. intros H. unfold uint16_t. apply Z.mod_small. unfold is_uint16 in H. lia. Qed.

Lemma uint8_t_range v : is_uint8 (uint8_t v).
Proof.
  unfold is_uint8, uint8_t.
  pose proof (Z.mod_pos_bound v (2 ^ 8)). lia.
Qed.

Lemma uint16_t_range v : is_uint16 (uint16_t v).
Proof.
  unfold is_uint16, uint16_t.
  pose proof (Z.mod_pos_bound v (2 ^ 16)). lia.
Qed.

Lemma byte_at_range m a : is_uint8 (byte_at P m a).
Proof. apply uint8_t_range. Qed.

Lemma join16_range b0 b1 : is_uint8 b0 -> is_uint8 b1 -> is_uint16 (join16 P b0 b1).
Proof.
  unfold is_uint8, is_uint16, join16. intros H0 H1.
  destruct (byte_order P); lia.
Qed.

(** For bytes, placing one above the other by shift-and-or is the same as
    by multiply-and-add. *)
Lemma lor_shiftl_byte lo hi :
  is_uint8 lo -> is_uint8 hi -> Z.lor lo (Z.shiftl hi 8) = lo + 2 ^ 8 * hi /\
                                Z.lor (Z.shiftl hi 8) lo = 2 ^ 8 * hi + lo.
Proof.
  unfold is_uint8. intros Hlo Hhi.
  assert (H : Z.lor lo (Z.shiftl hi 8) = lo + 2 ^ 8 * hi).
  { rewrite Z.shiftl_mul_pow2 by lia.
    rewrite (Z.add_comm lo), (Z.mul_comm (2 ^ 8)).
    rewrite Z.lor_comm. symmetry.
    rewrite <- Z.shiftl_mul_pow2 by lia.
    apply Z.add_nocarry_lor.
    apply Z.bits_inj'. intros n Hn.
    rewrite Z.land_spec, Z.bits_0.
    destruct (Z.lt_ge_cases n 8) as [Hlt | Hge].
    - rewrite Z.shiftl_spec_low by lia. reflexivity.
    - rewrite (Z.bits_above_log2 lo n); [apply andb_false_r | lia |].
      destruct (Z.eq_dec lo 0) as [-> | Hnz]; [simpl; lia |].
      apply Z.lt_le_trans with 8; [| exact Hge].
      apply Z.log2_lt_pow2; lia. }
  split; [exact H |]. rewrite Z.lor_comm, H. lia.
Qed.

(** Splitting a 16-bit value into its two bytes and joining them again
    gives the value back, whichever the byte order. *)
Lemma join16_split16 v :
  is_uint16 v ->
  join16 P (uint8_t (fst (split16 P v))) (uint8_t (snd (split16 P v))) = v.
Proof.
  unfold is_uint16, join16, split16, uint8_t. intros Hv.
  assert (Hhi : 0 <= v / 2 ^ 8 < 2 ^ 8).
  { split; [apply Z.div_pos; lia | apply Z.div_lt_upper_bound; lia]. }
  pose proof (Z.div_mod v (2 ^ 8)) as Hdm.
  pose proof (Z.mod_pos_bound v (2 ^ 8)) as Hlo.
  destruct (byte_order P); simpl fst; simpl snd;
    rewrite Z.mod_mod by lia; rewrite (Z.mod_small (v / 2 ^ 8)) by lia; lia.
Qed.

Lemma backed_byte_lookup m a :
  backed_byte m a = true -> exists b, ram m !! a = Some b.
Proof.
  unfold backed_byte. destruct (ram m !! a) as [b|]; [eauto | discriminate].
Qed.

Lemma backed_W16 m a :
  backed m W16 a = true -> backed_byte m a = true /\ backed_byte m (a + 1) = true.
Proof.
  unfold backed. simpl. intros H.
  destruct (backed_byte m a), (backed_byte m (a + 1)); simpl in H; auto; discriminate.
Qed.

Lemma backed_W8 m a : backed m W8 a = true -> backed_byte m a = true.
Proof.
  unfold backed. simpl. destruct (backed_byte m a); auto.
Qed.

(** A byte that is backed reads back what was last stored in it. *)
Lemma set_byte_same (r : gmap Z Z) a b x :
  r !! a = Some x -> set_byte a b r !! a = Some b.
Proof. intros H. unfold set_byte. rewrite lookup_alter_eq, H. reflexivity. Qed.

Lemma set_byte_other (r : gmap Z Z) a a' b :
  a' <> a -> set_byte a b r !! a' = r !! a'.
Proof. intros H. unfold set_byte. apply lookup_alter_ne. congruence. Qed.

(** Storing never adds or removes a byte of memory. *)
Lemma set_byte_backed (r : gmap Z Z) a a' b :
  is_Some (set_byte a b r !! a') <-> is_Some (r !! a').
Proof.
  unfold set_byte. rewrite lookup_alter. case_decide; [|reflexivity].
  subst. rewrite fmap_is_Some. reflexivity.
Qed.

Lemma mem_store_backed w a v (r : gmap Z Z) a' :
  is_Some (mem_store P w a v r !! a') <-> is_Some (r !! a').
Proof.
  destruct w; simpl.
  - apply set_byte_backed.
  - destruct (split16 P v) as [b0 b1]. rewrite !set_byte_backed. reflexivity.
Qed.

Lemma mem_store_other w a v (r : gmap Z Z) a' :
  a' ∉ footprint w a -> mem_store P w a v r !! a' = r !! a'.
Proof.
  destruct w; simpl; intros Hn.
  - apply set_byte_other. set_solver.
  - destruct (split16 P v) as [b0 b1].
    rewrite !set_byte_other by set_solver. reflexivity.
Qed.

(** *** How the monad runs *)

Lemma exec_bind {A B} (c : M A) (k : A -> M B) m :
  exec (bind c k) m = exec (k (eval c m)) (exec c m).
Proof. unfold exec, eval, bind. destruct (c m). reflexivity. Qed.

Lemma eval_bind {A B} (c : M A) (k : A -> M B) m :
  eval (bind c k) m = eval (k (eval c m)) (exec c m).
Proof. unfold exec, eval, bind. destruct (c m). reflexivity. Qed.

Lemma issued_by_issue {A} (c : M A) m e r :
  exec c m = issue e r m -> issued_by c m = [e].
Proof.
  intros H. unfold issued_by. rewrite H. simpl.
  rewrite drop_app_length. reflexivity.
Qed.

(** Accesses of consecutive computations appear one after the other. *)
Lemma issued_by_bind {A B} (c : M A) (k : A -> M B) m l1 l2 :
  bus_log (exec c m) = bus_log m ++ l1 ->
  bus_log (exec (k (eval c m)) (exec c m)) = bus_log (exec c m) ++ l2 ->
  issued_by (bind c k) m = l1 ++ l2.
Proof.
  intros H1 H2. unfold issued_by. rewrite exec_bind, H2, H1.
  rewrite <- app_assoc. apply drop_app_length.
Qed.

(** *** The state each function leaves, and the value it returns *)

Lemma exec_read8 a m :
  exec (_volatileRegisterReadUInt8 P a) m =
  issue (Load W8 (uintptr_t P a)) (ram m) m.
Proof. reflexivity. Qed.

Lemma exec_read16 a m :
  exec (_volatileRegisterReadUInt16 P a) m =
  issue (Load W16 (uintptr_t P a)) (ram m) m.
Proof. reflexivity. Qed.

Lemma exec_write8 a v m :
  exec (_volatileRegisterWriteUInt8 P a v) m =
  issue (Store W8 (uintptr_t P a) (uint8_t v))
        (set_byte (uintptr_t P a) (uint8_t v) (ram m)) m.
Proof. reflexivity. Qed.

Lemma exec_write16 a v m :
  exec (_volatileRegisterWriteUInt16 P a v) m =
  issue (Store W16 (uintptr_t P a) (uint16_t v))
        (mem_store P W16 (uintptr_t P a) (uint16_t v) (ram m)) m.
Proof. reflexivity. Qed.

Lemma eval_read8 a m :
  eval (_volatileRegisterReadUInt8 P a) m = byte_at P m (uintptr_t P a).
Proof. reflexivity. Qed.

Lemma eval_read16 a m :
  eval (_volatileRegisterReadUInt16 P a) m =
  join16 P (byte_at P m (uintptr_t P a)) (byte_at P m (uintptr_t P a + 1)).
Proof. reflexivity. Qed.

End Facts.

(** * Properties of the accessors *)

Section Properties.

Variable P : platform.

Implicit Types (m : machine) (a v : Z).

(** ** Round trips *)

(** C1. For every address [a] backed by ordinary read-write memory and
    every value [v] in [0, 255], [_volatileRegisterWriteUInt8 a v] followed
    by [_volatileRegisterReadUInt8 a] returns exactly [v]. *)
Theorem write8_read8_roundtrip m a v :
  is_uintptr P a ->
  backed m W8 a = true ->
  is_uint8 v ->
  eval (_volatileRegisterWriteUInt8 P a v ;;
        _volatileRegisterReadUInt8 P a)%acc m = v.
Proof.
  intros Ha Hb Hv.
  rewrite eval_bind, eval_read8, exec_write8.
  rewrite (uintptr_t_id P a Ha), (uint8_t_id v Hv).
  destruct (backed_byte_lookup m a (backed_W8 m a Hb)) as [x Hx].
  unfold byte_at, issue. simpl ram.
  rewrite (set_byte_same _ _ _ _ Hx). simpl.
  apply uint8_t_id, Hv.
Qed.

Lemma write16_read16_value m a v :
  is_uintptr P a ->
  backed m W16 a = true ->
  is_uint16 v ->
  eval (_volatileRegisterWriteUInt16 P a v ;;
        _volatileRegisterReadUInt16 P a)%acc m = v.
Proof.
  intros Ha Hb Hv.
  rewrite eval_bind, eval_read16, exec_write16.
  rewrite (uintptr_t_id P a Ha), (uint16_t_id v Hv).
  destruct (backed_W16 m a Hb) as [Hb0 Hb1].
  destruct (backed_byte_lookup m a Hb0) as [x0 Hx0].
  destruct (backed_byte_lookup m (a + 1) Hb1) as [x1 Hx1].
  etransitivity; [| exact (join16_split16 P v Hv)].
  unfold byte_at, issue, mem_store. simpl ram.
  destruct (split16 P v) as [b0 b1]. simpl fst. simpl snd.
  assert (Hne : a <> a + 1) by lia.
  rewrite (set_byte_other _ (a + 1) a b1 Hne).
  rewrite (set_byte_same _ a b0 x0 Hx0).
  rewrite (set_byte_same _ (a + 1) b1 x1).
  - reflexivity.
  - rewrite set_byte_other by lia. exact Hx1.
Qed.

(** C2. For every address [a] backed by ordinary read-write memory and
    every value [v] in [0, 65535], [_volatileRegisterWriteUInt16 a v]
    followed by [_volatileRegisterReadUInt16 a] returns exactly [v]; in
    particular, writing [0x1234] and reading back returns [0x1234]. *)
Theorem write16_read16_roundtrip m a v :
  is_uintptr P a ->
  backed m W16 a = true ->
  is_uint16 v ->
  eval (_volatileRegisterWriteUInt16 P a v ;;
        _volatileRegisterReadUInt16 P a)%acc m = v /\
  eval (_volatileRegisterWriteUInt16 P a 0x1234 ;;
        _volatileRegisterReadUInt16 P a)%acc m = 0x1234.
Proof.
  intros Ha Hb Hv. split.
  - apply write16_read16_value; assumption.
  - apply write16_read16_value; try assumption. unfold is_uint16. lia.
Qed.

(** ** Frame *)

(** C3. An 8-bit write changes only the byte at [address], a 16-bit write
    only the two bytes starting at [address]; every other memory location
    keeps its content. *)
Theorem write_changes_only_footprint m a v a' :
  is_uintptr P a ->
  (a' <> a ->
   ram (exec (_volatileRegisterWriteUInt8 P a v) m) !! a' = ram m !! a') /\
  (a' <> a -> a' <> a + 1 ->
   ram (exec (_volatileRegisterWriteUInt16 P a v) m) !! a' = ram m !! a').
Proof.
  intros Ha. split.
  - intros Hne. rewrite exec_write8, (uintptr_t_id P a Ha). simpl.
    apply set_byte_other, Hne.
  - intros Hne0 Hne1. rewrite exec_write16, (uintptr_t_id P a Ha).
    unfold issue. cbn [ram]. apply mem_store_other. simpl.
    rewrite !not_elem_of_cons. repeat split; auto using not_elem_of_nil.
Qed.

(** C4. A read leaves the whole memory as it was: the state after it is the
    state before it with the one load appended to the log of accesses. *)
Theorem read_leaves_memory_unchanged m a :
  (ram (exec (_volatileRegisterReadUInt8 P a) m) = ram m /\
   exec (_volatileRegisterReadUInt8 P a) m =
     Machine (ram m) (bus_log m ++ [Load W8 (uintptr_t P a)])) /\
  (ram (exec (_volatileRegisterReadUInt16 P a) m) = ram m /\
   exec (_volatileRegisterReadUInt16 P a) m =
     Machine (ram m) (bus_log m ++ [Load W16 (uintptr_t P a)])).
Proof. repeat split. Qed.

(** ** Accesses on the bus *)

(** C5. Every call of any of the four operations performs exactly one
    memory access: the count of accesses rises by one per call, and two
    calls in a row rise it by two, each access appearing in the log in
    program order, so adjacent accesses are not merged. *)
Theorem one_access_per_call m a v :
  access_count (exec (_volatileRegisterReadUInt8 P a) m) = S (access_count m) /\
  access_count (exec (_volatileRegisterWriteUInt8 P a v) m) = S (access_count m) /\
  access_count (exec (_volatileRegisterReadUInt16 P a) m) = S (access_count m) /\
  access_count (exec (_volatileRegisterWriteUInt16 P a v) m) = S (access_count m) /\
  access_count (exec (_volatileRegisterWriteUInt8 P a v ;;
                      _volatileRegisterReadUInt8 P a)%acc m)
    = S (S (access_count m)) /\
  access_count (exec (_volatileRegisterWriteUInt16 P a v ;;
                      _volatileRegisterReadUInt16 P a)%acc m)
    = S (S (access_count m)) /\
  issued_by (_volatileRegisterWriteUInt8 P a v ;;
             _volatileRegisterReadUInt8 P a)%acc m
    = [Store W8 (uintptr_t P a) (uint8_t v); Load W8 (uintptr_t P a)].
Proof.
  assert (Hpair :
    issued_by (_volatileRegisterWriteUInt8 P a v ;;
               _volatileRegisterReadUInt8 P a)%acc m
    = [Store W8 (uintptr_t P a) (uint8_t v)] ++ [Load W8 (uintptr_t P a)]).
  { apply issued_by_bind; [rewrite exec_write8 | rewrite exec_read8]; reflexivity. }
  unfold access_count.
  rewrite !exec_bind, !exec_read8, !exec_read16, !exec_write8, !exec_write16.
  unfold issue. cbn [bus_log].
  rewrite !length_app. cbn [length].
  repeat split; try lia. exact Hpair.
Qed.

(** C6. A 16-bit read or write is one 16-bit transaction on the bus: the
    only access it issues has width 16, and no 8-bit access occurs. *)
Theorem wide_access_not_split m a v :
  issued_by (_volatileRegisterReadUInt16 P a) m = [Load W16 (uintptr_t P a)] /\
  issued_by (_volatileRegisterWriteUInt16 P a v) m
    = [Store W16 (uintptr_t P a) (uint16_t v)] /\
  (forall e,
     e ∈ issued_by (_volatileRegisterReadUInt16 P a) m ++
         issued_by (_volatileRegisterWriteUInt16 P a v) m ->
     access_width e = W16 /\ access_width e <> W8).
Proof.
  assert (Hr := issued_by_issue _ _ _ _ (exec_read16 P a m)).
  assert (Hw := issued_by_issue _ _ _ _ (exec_write16 P a v m)).
  split; [exact Hr|]. split; [exact Hw|].
  intros e. rewrite Hr, Hw. cbn [app].
  rewrite !elem_of_cons, elem_of_nil.
  intros [-> | [-> | []]]; split; cbn; congruence.
Qed.

(** ** Value of a 16-bit read *)

(** C7. A 16-bit read returns the bytes that memory holds at [address]
    and [address + 1], combined in the byte order of the platform: with
    [b0] stored at [address] and [b1] at [address + 1], the result is
    [b0 | b1 << 8] on a little-endian platform and [b0 << 8 | b1] on a
    big-endian one. *)
Theorem read16_native_endian m a b0 b1 :
  is_uintptr P a ->
  ram m !! a = Some b0 ->
  ram m !! (a + 1) = Some b1 ->
  is_uint8 b0 ->
  is_uint8 b1 ->
  eval (_volatileRegisterReadUInt16 P a) m =
    match byte_order P with
    | LittleEndian => Z.lor b0 (Z.shiftl b1 8)
    | BigEndian => Z.lor (Z.shiftl b0 8) b1
    end.
Proof.
  intros Ha H0 H1 R0 R1. rewrite eval_read16, (uintptr_t_id P a Ha).
  unfold byte_at. rewrite H0, H1. cbn [default from_option id].
  rewrite (uint8_t_id b0 R0), (uint8_t_id b1 R1).
  unfold join16. symmetry.
  destruct (byte_order P).
  - apply (lor_shiftl_byte _ _ R0 R1).
  - apply (lor_shiftl_byte _ _ R1 R0).
Qed.

(** ** No state of its own *)

(** C9. The operations keep no state between calls: run on two machines
    whose memories are equal, whatever was accessed before, the same call
    returns the same value and leaves equal memories. *)
Theorem result_depends_on_memory_only m1 m2 a v :
  ram m1 = ram m2 ->
  (eval (_volatileRegisterReadUInt8 P a) m1 = eval (_volatileRegisterReadUInt8 P a) m2 /\
   ram (exec (_volatileRegisterReadUInt8 P a) m1)
     = ram (exec (_volatileRegisterReadUInt8 P a) m2)) /\
  (eval (_volatileRegisterWriteUInt8 P a v) m1 = eval (_volatileRegisterWriteUInt8 P a v) m2 /\
   ram (exec (_volatileRegisterWriteUInt8 P a v) m1)
     = ram (exec (_volatileRegisterWriteUInt8 P a v) m2)) /\
  (eval (_volatileRegisterReadUInt16 P a) m1 = eval (_volatileRegisterReadUInt16 P a) m2 /\
   ram (exec (_volatileRegisterReadUInt16 P a) m1)
     = ram (exec (_volatileRegisterReadUInt16 P a) m2)) /\
  (eval (_volatileRegisterWriteUInt16 P a v) m1 = eval (_volatileRegisterWriteUInt16 P a v) m2 /\
   ram (exec (_volatileRegisterWriteUInt16 P a v) m1)
     = ram (exec (_volatileRegisterWriteUInt16 P a v) m2)).
Proof.
  intros Hram.
  rewrite !eval_read8, !eval_read16, !exec_read8, !exec_read16,
          !exec_write8, !exec_write16.
  unfold byte_at, issue. cbn [ram]. rewrite Hram.
  repeat split.
Qed.

End Properties.

(** * How the accessors compose *)

Section Composition.

Variable P : platform.

Implicit Types (m : machine) (r : gmap Z Z) (a b v w : Z).

(** ** Memory after a call *)

Lemma ram_read8 a m : ram (exec (_volatileRegisterReadUInt8 P a) m) = ram m.
Proof. reflexivity. Qed.

Lemma ram_read16 a m : ram (exec (_volatileRegisterReadUInt16 P a) m) = ram m.
Proof. reflexivity. Qed.

Lemma ram_write8 a v m :
  ram (exec (_volatileRegisterWriteUInt8 P a v) m)
  = set_byte (uintptr_t P a) (uint8_t v) (ram m).
Proof. reflexivity. Qed.

Lemma ram_write16 a v m :
  ram (exec (_volatileRegisterWriteUInt16 P a v) m)
  = set_byte (uintptr_t P a + 1) (snd (split16 P (uint16_t v)))
      (set_byte (uintptr_t P a) (fst (split16 P (uint16_t v))) (ram m)).
Proof.
  rewrite exec_write16. unfold issue, mem_store. cbn [ram].
  destruct (split16 P (uint16_t v)). reflexivity.
Qed.

Lemma byte_at_ram m1 m2 a : ram m1 = ram m2 -> byte_at P m1 a = byte_at P m2 a.
Proof. unfold byte_at. intros ->. reflexivity. Qed.

Lemma byte_at_set_same m m' a b :
  backed_byte m a = true ->
  ram m' !! a = set_byte a b (ram m) !! a ->
  byte_at P m' a = uint8_t b.
Proof.
  intros Hb Hm'. destruct (backed_byte_lookup m a Hb) as [x Hx].
  unfold byte_at. rewrite Hm', (set_byte_same _ _ _ _ Hx). reflexivity.
Qed.

Lemma byte_at_lookup m m' a :
  ram m' !! a = ram m !! a -> byte_at P m' a = byte_at P m a.
Proof. unfold byte_at. intros ->. reflexivity. Qed.

Lemma backed_byte_set m m' a a' b :
  ram m' = set_byte a b (ram m) -> backed_byte m' a' = backed_byte m a'.
Proof.
  intros Hm'. unfold backed_byte. rewrite Hm'.
  pose proof (set_byte_backed (ram m) a a' b) as [H1 H2].
  destruct (set_byte a b (ram m) !! a') as [x|] eqn:E1;
    destruct (ram m !! a') as [y|] eqn:E2; try reflexivity.
  - destruct H1 as [z Hz]; [eauto | discriminate].
  - destruct H2 as [z Hz]; [eauto | discriminate].
Qed.

(** The two bytes of a 16-bit value are bytes. *)
Lemma split16_range v :
  is_uint16 v -> is_uint8 (fst (split16 P v)) /\ is_uint8 (snd (split16 P v)).
Proof.
  unfold is_uint16, is_uint8, split16. intros Hv.
  assert (Hhi : 0 <= v / 2 ^ 8 < 2 ^ 8).
  { split; [apply Z.div_pos; lia | apply Z.div_lt_upper_bound; lia]. }
  pose proof (Z.mod_pos_bound v (2 ^ 8)) as Hlo.
  destruct (byte_order P); cbn [fst snd]; lia.
Qed.

(** Joining two bytes and splitting the result gives the bytes back. *)
Lemma split16_join16 b0 b1 :
  is_uint8 b0 -> is_uint8 b1 -> split16 P (join16 P b0 b1) = (b0, b1).
Proof.
  unfold is_uint8, split16, join16. intros H0 H1.
  change (2 ^ 8) with 256.
  destruct (byte_order P); f_equal; symmetry.
  - apply Z.mod_unique with b1; lia.
  - apply Z.div_unique with b0; lia.
  - apply Z.div_unique with b1; lia.
  - apply Z.mod_unique with b0; lia.
Qed.

(** The bytes a 16-bit write leaves at its two addresses. *)
Lemma byte_at_write16 m a v :
  is_uintptr P a ->
  backed m W16 a = true ->
  byte_at P (exec (_volatileRegisterWriteUInt16 P a v) m) a
    = fst (split16 P (uint16_t v)) /\
  byte_at P (exec (_volatileRegisterWriteUInt16 P a v) m) (a + 1)
    = snd (split16 P (uint16_t v)).
Proof.
  intros Ha Hb. destruct (backed_W16 m a Hb) as [Hb0 Hb1].
  destruct (backed_byte_lookup m a Hb0) as [x0 Hx0].
  destruct (backed_byte_lookup m (a + 1) Hb1) as [x1 Hx1].
  destruct (split16_range (uint16_t v) (uint16_t_range v)) as [R0 R1].
  unfold byte_at. rewrite ram_write16, (uintptr_t_id P a Ha). split.
  - rewrite set_byte_other by lia. rewrite (set_byte_same _ _ _ _ Hx0).
    apply uint8_t_id, R0.
  - rewrite (set_byte_same _ (a + 1) _ x1).
    + apply uint8_t_id, R1.
    + rewrite set_byte_other by lia. exact Hx1.
Qed.

Lemma join16_split16_bytes v :
  is_uint16 v -> join16 P (fst (split16 P v)) (snd (split16 P v)) = v.
Proof.
  intros Hv. destruct (split16_range v Hv) as [R0 R1].
  rewrite <- (join16_split16 P v Hv) at 3.
  rewrite (uint8_t_id _ R0), (uint8_t_id _ R1). reflexivity.
Qed.

(** No call adds a byte to memory or takes one away. *)
Lemma backed_exec_write8 m a v (wd : width) a' :
  backed (exec (_volatileRegisterWriteUInt8 P a v) m) wd a' = backed m wd a'.
Proof.
  assert (Hbyte : forall x,
    backed_byte (exec (_volatileRegisterWriteUInt8 P a v) m) x = backed_byte m x).
  { intros x. eapply backed_byte_set. apply ram_write8. }
  unfold backed. destruct wd; cbn [footprint forallb]; rewrite !Hbyte; reflexivity.
Qed.

Lemma backed_exec_write16 m a v (wd : width) a' :
  backed (exec (_volatileRegisterWriteUInt16 P a v) m) wd a' = backed m wd a'.
Proof.
  assert (Hbyte : forall x,
    backed_byte (exec (_volatileRegisterWriteUInt16 P a v) m) x = backed_byte m x).
  { intros x.
    set (mid := Machine (set_byte (uintptr_t P a) (fst (split16 P (uint16_t v))) (ram m)) []).
    transitivity (backed_byte mid x).
    - eapply backed_byte_set. rewrite ram_write16. reflexivity.
    - eapply backed_byte_set. reflexivity. }
  unfold backed. destruct wd; cbn [footprint forallb]; rewrite !Hbyte; reflexivity.
Qed.

Lemma read8_after_write8 m a v :
  is_uintptr P a -> backed m W8 a = true ->
  eval (_volatileRegisterReadUInt8 P a)
       (exec (_volatileRegisterWriteUInt8 P a v) m) = uint8_t v.
Proof.
  intros Ha Hb. rewrite eval_read8, (uintptr_t_id P a Ha).
  rewrite (byte_at_set_same m _ a (uint8_t v) (backed_W8 m a Hb)).
  - unfold uint8_t. apply Z.mod_mod. lia.
  - rewrite ram_write8, (uintptr_t_id P a Ha). reflexivity.
Qed.

Lemma read16_after_write16 m a v :
  is_uintptr P a -> backed m W16 a = true ->
  eval (_volatileRegisterReadUInt16 P a)
       (exec (_volatileRegisterWriteUInt16 P a v) m) = uint16_t v.
Proof.
  intros Ha Hb. rewrite eval_read16, (uintptr_t_id P a Ha).
  destruct (byte_at_write16 m a v Ha Hb) as [-> ->].
  apply join16_split16_bytes, uint16_t_range.
Qed.

Lemma byte_at_write8_other m a v x :
  is_uintptr P a -> x <> a ->
  byte_at P (exec (_volatileRegisterWriteUInt8 P a v) m) x = byte_at P m x.
Proof.
  intros Ha Hne. apply byte_at_lookup.
  rewrite ram_write8, (uintptr_t_id P a Ha). apply set_byte_other, Hne.
Qed.

Lemma byte_at_write16_other m a v x :
  is_uintptr P a -> x <> a -> x <> a + 1 ->
  byte_at P (exec (_volatileRegisterWriteUInt16 P a v) m) x = byte_at P m x.
Proof.
  intros Ha Hne0 Hne1. apply byte_at_lookup.
  rewrite ram_write16, (uintptr_t_id P a Ha).
  rewrite !set_byte_other by assumption. reflexivity.
Qed.

Lemma backed_byte_exec_write8 m a v x :
  backed_byte (exec (_volatileRegisterWriteUInt8 P a v) m) x = backed_byte m x.
Proof. eapply backed_byte_set. apply ram_write8. Qed.

Lemma backed_byte_exec_write16 m a v x :
  backed_byte (exec (_volatileRegisterWriteUInt16 P a v) m) x = backed_byte m x.
Proof.
  set (mid := Machine (set_byte (uintptr_t P a) (fst (split16 P (uint16_t v))) (ram m)) []).
  transitivity (backed_byte mid x).
  - eapply backed_byte_set. rewrite ram_write16. reflexivity.
  - eapply backed_byte_set. reflexivity.
Qed.

Lemma byte_at_write8_same m a v :
  is_uintptr P a -> backed_byte m a = true ->
  byte_at P (exec (_volatileRegisterWriteUInt8 P a v) m) a = uint8_t v.
Proof.
  intros Ha Hb.
  rewrite (byte_at_set_same m _ a (uint8_t v) Hb).
  - unfold uint8_t. apply Z.mod_mod. lia.
  - rewrite ram_write8, (uintptr_t_id P a Ha). reflexivity.
Qed.

(** The accesses of two calls in a row, and of three. *)
Lemma issued_by_two {A B} (c1 : M A) (c2 : M B) m e1 e2 r1 r2 :
  exec c1 m = issue e1 r1 m ->
  exec c2 (exec c1 m) = issue e2 r2 (exec c1 m) ->
  issued_by (c1 ;; c2)%acc m = [e1; e2].
Proof.
  intros H1 H2. unfold issued_by. rewrite exec_bind, H2, H1.
  unfold issue. cbn [bus_log]. rewrite <- app_assoc. apply drop_app_length.
Qed.

(** ** Values out of range *)

(** X1. An 8-bit write keeps the low eight bits of whatever value it is
    given: at a backed address the read that follows returns the value
    modulo 256. *)
Theorem write8_truncates_value m a v :
  is_uintptr P a ->
  backed m W8 a = true ->
  eval (_volatileRegisterWriteUInt8 P a v ;;
        _volatileRegisterReadUInt8 P a)%acc m = v mod 256.
Proof.
  intros Ha Hb. rewrite eval_bind. apply read8_after_write8; assumption.
Qed.

(** X2. A 16-bit write keeps the low sixteen bits of whatever value it is
    given: at a backed address the read that follows returns the value
    modulo 65536, in either byte order. *)
Theorem write16_truncates_value m a v :
  is_uintptr P a ->
  backed m W16 a = true ->
  eval (_volatileRegisterWriteUInt16 P a v ;;
        _volatileRegisterReadUInt16 P a)%acc m = v mod 65536.
Proof.
  intros Ha Hb. rewrite eval_bind. apply read16_after_write16; assumption.
Qed.

(** ** Several writes *)

(** X3. The last write wins: after two writes of the same width to the
    same backed address, a read returns the second value. *)
Theorem last_write_wins m a v1 v2 :
  is_uintptr P a ->
  (backed m W8 a = true ->
   eval (_volatileRegisterWriteUInt8 P a v1 ;;
         _volatileRegisterWriteUInt8 P a v2 ;;
         _volatileRegisterReadUInt8 P a)%acc m = uint8_t v2) /\
  (backed m W16 a = true ->
   eval (_volatileRegisterWriteUInt16 P a v1 ;;
         _volatileRegisterWriteUInt16 P a v2 ;;
         _volatileRegisterReadUInt16 P a)%acc m = uint16_t v2).
Proof.
  intros Ha. split; intros Hb; rewrite !eval_bind.
  - apply read8_after_write8; [exact Ha |].
    rewrite backed_exec_write8. exact Hb.
  - apply read16_after_write16; [exact Ha |].
    rewrite backed_exec_write16. exact Hb.
Qed.

(** X4. A write does not change what a read of other bytes returns: a read
    whose bytes are all different from the bytes written returns what it
    would have returned without the write. *)
Theorem read_unaffected_by_write_elsewhere m a b v :
  is_uintptr P a ->
  is_uintptr P b ->
  (b <> a ->
   eval (_volatileRegisterWriteUInt8 P a v ;;
         _volatileRegisterReadUInt8 P b)%acc m
   = eval (_volatileRegisterReadUInt8 P b) m) /\
  (b <> a -> b + 1 <> a ->
   eval (_volatileRegisterWriteUInt8 P a v ;;
         _volatileRegisterReadUInt16 P b)%acc m
   = eval (_volatileRegisterReadUInt16 P b) m) /\
  (b <> a -> b <> a + 1 ->
   eval (_volatileRegisterWriteUInt16 P a v ;;
         _volatileRegisterReadUInt8 P b)%acc m
   = eval (_volatileRegisterReadUInt8 P b) m) /\
  (b <> a -> b <> a + 1 -> b + 1 <> a ->
   eval (_volatileRegisterWriteUInt16 P a v ;;
         _volatileRegisterReadUInt16 P b)%acc m
   = eval (_volatileRegisterReadUInt16 P b) m).
Proof.
  intros Ha Hb.
  repeat split; intros;
    rewrite eval_bind, ?eval_read8, ?eval_read16, ?(uintptr_t_id P b Hb);
    rewrite ?byte_at_write8_other, ?byte_at_write16_other by (assumption || lia);
    reflexivity.
Qed.

(** ** Bytes and words *)

(** X5. The two bytes of a 16-bit write are what 8-bit reads of its two
    addresses return: the low half at the lower address on a little-endian
    platform, the high half there on a big-endian one. *)
Theorem write16_seen_bytewise m a v :
  is_uintptr P a ->
  is_uintptr P (a + 1) ->
  backed m W16 a = true ->
  eval (_volatileRegisterWriteUInt16 P a v ;;
        _volatileRegisterReadUInt8 P a)%acc m
    = match byte_order P with
      | LittleEndian => (v mod 65536) mod 256
      | BigEndian => (v mod 65536) / 256
      end /\
  eval (_volatileRegisterWriteUInt16 P a v ;;
        _volatileRegisterReadUInt8 P (a + 1))%acc m
    = match byte_order P with
      | LittleEndian => (v mod 65536) / 256
      | BigEndian => (v mod 65536) mod 256
      end.
Proof.
  intros Ha Ha1 Hb.
  rewrite !eval_bind, !eval_read8, (uintptr_t_id P a Ha), (uintptr_t_id P _ Ha1).
  destruct (byte_at_write16 m a v Ha Hb) as [-> ->].
  unfold split16, uint16_t. destruct (byte_order P); split; reflexivity.
Qed.

(** X6. Two 8-bit writes to consecutive backed addresses are read back by
    one 16-bit read as the word made of the two bytes in the byte order of
    the platform. *)
Theorem two_write8_seen_as_word m a b0 b1 :
  is_uintptr P a ->
  is_uintptr P (a + 1) ->
  backed m W16 a = true ->
  eval (_volatileRegisterWriteUInt8 P a b0 ;;
        _volatileRegisterWriteUInt8 P (a + 1) b1 ;;
        _volatileRegisterReadUInt16 P a)%acc m
    = match byte_order P with
      | LittleEndian => b0 mod 256 + 256 * (b1 mod 256)
      | BigEndian => 256 * (b0 mod 256) + b1 mod 256
      end.
Proof.
  intros Ha Ha1 Hb. destruct (backed_W16 m a Hb) as [Hb0 Hb1].
  rewrite !eval_bind, eval_read16, (uintptr_t_id P a Ha).
  rewrite (byte_at_write8_other _ (a + 1) b1 a Ha1) by lia.
  rewrite (byte_at_write8_same m a b0 Ha Hb0).
  rewrite (byte_at_write8_same _ (a + 1) b1 Ha1)
    by (rewrite backed_byte_exec_write8; exact Hb1).
  reflexivity.
Qed.

(** X9. An 8-bit write into a word replaces one half and keeps the other:
    after a 16-bit write and an 8-bit write to the same backed address, a
    16-bit read returns the new byte in the half that lives at that
    address and the old word's other half. *)
Theorem write8_updates_half_of_word m a v b :
  is_uintptr P a ->
  is_uintptr P (a + 1) ->
  backed m W16 a = true ->
  eval (_volatileRegisterWriteUInt16 P a v ;;
        _volatileRegisterWriteUInt8 P a b ;;
        _volatileRegisterReadUInt16 P a)%acc m
    = match byte_order P with
      | LittleEndian => b mod 256 + 256 * ((v mod 65536) / 256)
      | BigEndian => 256 * (b mod 256) + (v mod 65536) mod 256
      end.
Proof.
  intros Ha Ha1 Hb. destruct (backed_W16 m a Hb) as [Hb0 Hb1].
  rewrite !eval_bind, eval_read16, (uintptr_t_id P a Ha).
  rewrite (byte_at_write8_same _ a b Ha)
    by (rewrite backed_byte_exec_write16; exact Hb0).
  rewrite (byte_at_write8_other _ a b (a + 1) Ha) by lia.
  destruct (byte_at_write16 m a v Ha Hb) as [_ ->].
  unfold join16, split16, uint16_t, uint8_t.
  destruct (byte_order P); reflexivity.
Qed.

(** ** Well-formed memory *)

Lemma bytes_ok_lookup r :
  bytes_ok r = true <-> (forall a b, r !! a = Some b -> is_uint8 b).
Proof.
  unfold bytes_ok, is_uint8. rewrite bool_decide_eq_true.
  apply map_Forall_lookup.
Qed.

Lemma bytes_ok_set_byte r a b :
  is_uint8 b -> bytes_ok r = true -> bytes_ok (set_byte a b r) = true.
Proof.
  rewrite !bytes_ok_lookup. intros Hb Hr x y. unfold set_byte.
  rewrite lookup_alter. case_decide as Hx.
  - subst x. destruct (r !! a); cbn; intros E; [| discriminate].
    injection E as <-. exact Hb.
  - apply Hr.
Qed.

(** Storing in a byte what a load of it returns changes nothing. *)
Lemma set_byte_byte_at m a :
  bytes_ok (ram m) = true -> set_byte a (byte_at P m a) (ram m) = ram m.
Proof.
  rewrite bytes_ok_lookup. intros Hm. apply map_eq. intros x.
  unfold set_byte. rewrite lookup_alter. case_decide as Hx; [| reflexivity].
  subst x. unfold byte_at. destruct (ram m !! a) as [c|] eqn:E; cbn; [| reflexivity].
  f_equal. apply uint8_t_id. exact (Hm a c E).
Qed.

(** X10. Memory stays made of bytes: if every byte of memory holds a value
    in [0, 255] before a write, of either width and with any address and
    value, every byte does after it. *)
Theorem writes_keep_bytes m a v :
  bytes_ok (ram m) = true ->
  bytes_ok (ram (exec (_volatileRegisterWriteUInt8 P a v) m)) = true /\
  bytes_ok (ram (exec (_volatileRegisterWriteUInt16 P a v) m)) = true.
Proof.
  intros Hm.
  destruct (split16_range (uint16_t v) (uint16_t_range v)) as [R0 R1].
  split.
  - rewrite ram_write8. apply bytes_ok_set_byte; [apply uint8_t_range | exact Hm].
  - rewrite ram_write16.
    apply bytes_ok_set_byte; [exact R1 |].
    apply bytes_ok_set_byte; [exact R0 | exact Hm].
Qed.

(** X11. Writing back what was just read leaves memory as it was, for
    either width and at any address, backed or not. *)
Theorem read_then_write_back m a :
  bytes_ok (ram m) = true ->
  ram (exec (x <- _volatileRegisterReadUInt8 P a ;;
             _volatileRegisterWriteUInt8 P a x)%acc m) = ram m /\
  ram (exec (x <- _volatileRegisterReadUInt16 P a ;;
             _volatileRegisterWriteUInt16 P a x)%acc m) = ram m.
Proof.
  intros Hm. split; rewrite exec_bind.
  - rewrite ram_write8, ram_read8, eval_read8.
    rewrite (uint8_t_id _ (byte_at_range P m _)).
    apply set_byte_byte_at. exact Hm.
  - rewrite ram_write16, ram_read16, eval_read16.
    set (u := uintptr_t P a).
    assert (R : is_uint16 (join16 P (byte_at P m u) (byte_at P m (u + 1))))
      by (apply join16_range; apply byte_at_range).
    rewrite (uint16_t_id _ R).
    rewrite (split16_join16 _ _ (byte_at_range P m u) (byte_at_range P m (u + 1))).
    cbn [fst snd].
    rewrite (set_byte_byte_at m u Hm). apply set_byte_byte_at. exact Hm.
Qed.

(** ** Order of writes *)

Lemma set_byte_commute r a b x y :
  a <> b -> set_byte a x (set_byte b y r) = set_byte b y (set_byte a x r).
Proof.
  intros Hne. apply map_eq. intros i. unfold set_byte.
  rewrite !lookup_alter. repeat case_decide; congruence.
Qed.

(** X12. Writes to different bytes may be swapped as far as memory goes,
    but not as far as the bus goes: both orders leave the same memory, and
    each shows on the bus in the order it was written. *)
Theorem writes_to_distinct_bytes_commute m a b v w :
  is_uintptr P a ->
  is_uintptr P b ->
  a <> b ->
  ram (exec (_volatileRegisterWriteUInt8 P a v ;;
             _volatileRegisterWriteUInt8 P b w)%acc m)
    = ram (exec (_volatileRegisterWriteUInt8 P b w ;;
                 _volatileRegisterWriteUInt8 P a v)%acc m) /\
  issued_by (_volatileRegisterWriteUInt8 P a v ;;
             _volatileRegisterWriteUInt8 P b w)%acc m
    = [Store W8 a (uint8_t v); Store W8 b (uint8_t w)] /\
  issued_by (_volatileRegisterWriteUInt8 P b w ;;
             _volatileRegisterWriteUInt8 P a v)%acc m
    = [Store W8 b (uint8_t w); Store W8 a (uint8_t v)].
Proof.
  intros Ha Hb Hne. split; [| split].
  - rewrite !exec_bind, !ram_write8.
    rewrite (uintptr_t_id P a Ha), (uintptr_t_id P b Hb).
    apply set_byte_commute. congruence.
  - erewrite issued_by_two; [| apply exec_write8 | apply exec_write8].
    rewrite (uintptr_t_id P a Ha), (uintptr_t_id P b Hb). reflexivity.
  - erewrite issued_by_two; [| apply exec_write8 | apply exec_write8].
    rewrite (uintptr_t_id P a Ha), (uintptr_t_id P b Hb). reflexivity.
Qed.

(** ** Any sequence of calls *)

Lemma bus_log_perform c m :
  bus_log (exec (perform P c) m) = bus_log m ++ [access_of P c].
Proof. destruct c; reflexivity. Qed.

Lemma bus_log_perform_all cs m :
  bus_log (exec (perform_all P cs) m) = bus_log m ++ map (access_of P) cs.
Proof.
  revert m. induction cs as [| c cs IH]; intros m.
  - cbn. rewrite app_nil_r. reflexivity.
  - cbn [perform_all map]. rewrite exec_bind, IH, bus_log_perform.
    rewrite <- app_assoc. reflexivity.
Qed.

(** X13. A caller that makes any sequence of calls puts exactly one access
    per call on the bus, in the order of the calls, each with the width of
    its function and the address and value it was given: nothing is left
    out, merged or moved. *)
Theorem calls_issue_in_program_order cs m :
  issued_by (perform_all P cs) m = map (access_of P) cs /\
  access_count (exec (perform_all P cs) m) = (access_count m + length cs)%nat.
Proof.
  split.
  - unfold issued_by. rewrite bus_log_perform_all. apply drop_app_length.
  - unfold access_count. rewrite bus_log_perform_all, length_app, length_map.
    reflexivity.
Qed.

End Composition.

(** * The properties at work on a concrete machine *)

(** The scenario: a byte at [A] holding [0x00]; after writing [0xFF] an
    8-bit read returns [0xFF], after writing [0x1234] a 16-bit read
    returns [0x1234]. *)
Example scenario_write8 :
  eval (_volatileRegisterWriteUInt8 mcu_le 256 0xFF ;;
        _volatileRegisterReadUInt8 mcu_le 256)%acc sram = 0xFF.
Proof. vm_compute. reflexivity. Qed.

Example scenario_write16 :
  eval (_volatileRegisterWriteUInt8 mcu_le 256 0xFF ;;
        _volatileRegisterWriteUInt16 mcu_le 256 0x1234 ;;
        _volatileRegisterReadUInt16 mcu_le 256)%acc sram = 0x1234.
Proof. vm_compute. reflexivity. Qed.

(** The byte order decides which byte of [0x1234] lands at the lower
    address. *)
Example layout_little_endian :
  eval (_volatileRegisterWriteUInt16 mcu_le 256 0x1234 ;;
        _volatileRegisterReadUInt8 mcu_le 256)%acc sram = 0x34.
Proof. vm_compute. reflexivity. Qed.

Example layout_big_endian :
  eval (_volatileRegisterWriteUInt16 mcu_be 256 0x1234 ;;
        _volatileRegisterReadUInt8 mcu_be 256)%acc sram = 0x12.
Proof. vm_compute. reflexivity. Qed.

(** Where nothing backs the address the round trip is lost: the store has
    no byte to land in and the load sees the open bus. *)
Example unbacked_write8_read8 :
  backed sram W8 0 = false /\
  eval (_volatileRegisterWriteUInt8 mcu_le 0 0x5A ;;
        _volatileRegisterReadUInt8 mcu_le 0)%acc sram = 0xFF.
Proof. vm_compute. split; reflexivity. Qed.

(** A value that does not fit [uint8_t] arrives reduced modulo 256. *)
Example write8_wraps_value :
  eval (_volatileRegisterWriteUInt8 mcu_le 256 0x1FF ;;
        _volatileRegisterReadUInt8 mcu_le 256)%acc sram = 0xFF.
Proof. vm_compute. reflexivity. Qed.

(** The log after the scenario, in program order. *)
Example scenario_log :
  bus_log (exec (_volatileRegisterWriteUInt8 mcu_le 256 0xFF ;;
                 _volatileRegisterReadUInt8 mcu_le 256 ;;
                 _volatileRegisterWriteUInt16 mcu_le 256 0x1234 ;;
                 _volatileRegisterReadUInt16 mcu_le 256)%acc sram)
  = [Store W8 256 0xFF; Load W8 256; Store W16 256 0x1234; Load W16 256].
Proof. vm_compute. reflexivity. Qed.

(** ** Instances of the theorems that carry hypotheses *)

Lemma write8_read8_roundtrip_witness :
  is_uintptr mcu_le 256 /\ backed sram W8 256 = true /\ is_uint8 0xFF /\
  eval (_volatileRegisterWriteUInt8 mcu_le 256 0xFF ;;
        _volatileRegisterReadUInt8 mcu_le 256)%acc sram = 0xFF.
Proof.
  assert (Ha : is_uintptr mcu_le 256) by (unfold is_uintptr; simpl; lia).
  assert (Hb : backed sram W8 256 = true) by reflexivity.
  assert (Hv : is_uint8 0xFF) by (unfold is_uint8; lia).
  split; [exact Ha |]. split; [exact Hb |]. split; [exact Hv |].
  exact (write8_read8_roundtrip mcu_le sram 256 0xFF Ha Hb Hv).
Defined.

Lemma write16_read16_roundtrip_witness :
  is_uintptr mcu_be 258 /\ backed sram_used W16 258 = true /\ is_uint16 0xBEEF /\
  eval (_volatileRegisterWriteUInt16 mcu_be 258 0xBEEF ;;
        _volatileRegisterReadUInt16 mcu_be 258)%acc sram_used = 0xBEEF /\
  eval (_volatileRegisterWriteUInt16 mcu_be 258 0x1234 ;;
        _volatileRegisterReadUInt16 mcu_be 258)%acc sram_used = 0x1234.
Proof.
  assert (Ha : is_uintptr mcu_be 258) by (unfold is_uintptr; simpl; lia).
  assert (Hb : backed sram_used W16 258 = true) by reflexivity.
  assert (Hv : is_uint16 0xBEEF) by (unfold is_uint16; lia).
  split; [exact Ha |]. split; [exact Hb |]. split; [exact Hv |].
  exact (write16_read16_roundtrip mcu_be sram_used 258 0xBEEF Ha Hb Hv).
Defined.

Lemma write_changes_only_footprint_witness :
  is_uintptr mcu_le 256 /\ 258 <> 256 /\ 258 <> 256 + 1 /\
  ram (exec (_volatileRegisterWriteUInt8 mcu_le 256 0xFF) sram) !! 258
    = ram sram !! 258 /\
  ram (exec (_volatileRegisterWriteUInt16 mcu_le 256 0xFFFF) sram) !! 258
    = ram sram !! 258.
Proof.
  assert (Ha : is_uintptr mcu_le 256) by (unfold is_uintptr; simpl; lia).
  assert (H0 : 258 <> 256) by lia.
  assert (H1 : 258 <> 256 + 1) by lia.
  split; [exact Ha |]. split; [exact H0 |]. split; [exact H1 |].
  split.
  - exact (proj1 (write_changes_only_footprint mcu_le sram 256 0xFF 258 Ha) H0).
  - exact (proj2 (write_changes_only_footprint mcu_le sram 256 0xFFFF 258 Ha) H0 H1).
Defined.

Lemma read16_native_endian_witness :
  is_uintptr mcu_le 256 /\ is_uintptr mcu_be 256 /\
  ram sram_word !! 256 = Some 0x34 /\ ram sram_word !! (256 + 1) = Some 0x12 /\
  is_uint8 0x34 /\ is_uint8 0x12 /\
  eval (_volatileRegisterReadUInt16 mcu_le 256) sram_word = 0x1234 /\
  eval (_volatileRegisterReadUInt16 mcu_be 256) sram_word = 0x3412.
Proof.
  assert (Hle : is_uintptr mcu_le 256) by (unfold is_uintptr; simpl; lia).
  assert (Hbe : is_uintptr mcu_be 256) by (unfold is_uintptr; simpl; lia).
  assert (H0 : ram sram_word !! 256 = Some 0x34) by reflexivity.
  assert (H1 : ram sram_word !! (256 + 1) = Some 0x12) by reflexivity.
  assert (R0 : is_uint8 0x34) by (unfold is_uint8; lia).
  assert (R1 : is_uint8 0x12) by (unfold is_uint8; lia).
  split; [exact Hle |]. split; [exact Hbe |].
  split; [exact H0 |]. split; [exact H1 |].
  split; [exact R0 |]. split; [exact R1 |].
  split.
  - exact (read16_native_endian mcu_le sram_word 256 0x34 0x12 Hle H0 H1 R0 R1).
  - exact (read16_native_endian mcu_be sram_word 256 0x34 0x12 Hbe H0 H1 R0 R1).
Defined.

Lemma result_depends_on_memory_only_witness :
  ram sram = ram sram_used /\
  eval (_volatileRegisterReadUInt16 mcu_le 256) sram
    = eval (_volatileRegisterReadUInt16 mcu_le 256) sram_used /\
  ram (exec (_volatileRegisterWriteUInt16 mcu_le 256 0x1234) sram)
    = ram (exec (_volatileRegisterWriteUInt16 mcu_le 256 0x1234) sram_used).
Proof.
  assert (Hram : ram sram = ram sram_used) by reflexivity.
  split; [exact Hram |].
  destruct (result_depends_on_memory_only mcu_le sram sram_used 256 0x1234 Hram)
    as (_ & _ & [Hr _] & [_ Hw]).
  split; [exact Hr | exact Hw].
Defined.

(** ** Instances of the composition theorems *)

Lemma write8_truncates_value_witness :
  is_uintptr mcu_le 256 /\ backed sram W8 256 = true /\
  eval (_volatileRegisterWriteUInt8 mcu_le 256 0x1FF ;;
        _volatileRegisterReadUInt8 mcu_le 256)%acc sram = 0xFF.
Proof.
  assert (Ha : is_uintptr mcu_le 256) by (unfold is_uintptr; simpl; lia).
  assert (Hb : backed sram W8 256 = true) by reflexivity.
  split; [exact Ha |]. split; [exact Hb |].
  exact (write8_truncates_value mcu_le sram 256 0x1FF Ha Hb).
Defined.

Lemma write16_truncates_value_witness :
  is_uintptr mcu_be 258 /\ backed sram W16 258 = true /\
  eval (_volatileRegisterWriteUInt16 mcu_be 258 0x12345 ;;
        _volatileRegisterReadUInt16 mcu_be 258)%acc sram = 0x2345.
Proof.
  assert (Ha : is_uintptr mcu_be 258) by (unfold is_uintptr; simpl; lia).
  assert (Hb : backed sram W16 258 = true) by reflexivity.
  split; [exact Ha |]. split; [exact Hb |].
  exact (write16_truncates_value mcu_be sram 258 0x12345 Ha Hb).
Defined.

Lemma last_write_wins_witness :
  is_uintptr mcu_le 256 /\ backed sram W8 256 = true /\ backed sram W16 256 = true /\
  eval (_volatileRegisterWriteUInt8 mcu_le 256 0x11 ;;
        _volatileRegisterWriteUInt8 mcu_le 256 0x22 ;;
        _volatileRegisterReadUInt8 mcu_le 256)%acc sram = 0x22 /\
  eval (_volatileRegisterWriteUInt16 mcu_le 256 0x1111 ;;
        _volatileRegisterWriteUInt16 mcu_le 256 0x2222 ;;
        _volatileRegisterReadUInt16 mcu_le 256)%acc sram = 0x2222.
Proof.
  assert (Ha : is_uintptr mcu_le 256) by (unfold is_uintptr; simpl; lia).
  assert (Hb8 : backed sram W8 256 = true) by reflexivity.
  assert (Hb16 : backed sram W16 256 = true) by reflexivity.
  split; [exact Ha |]. split; [exact Hb8 |]. split; [exact Hb16 |].
  split.
  - exact (proj1 (last_write_wins mcu_le sram 256 0x11 0x22 Ha) Hb8).
  - exact (proj2 (last_write_wins mcu_le sram 256 0x1111 0x2222 Ha) Hb16).
Defined.

Lemma read_unaffected_by_write_elsewhere_witness :
  is_uintptr mcu_le 256 /\ is_uintptr mcu_le 258 /\
  258 <> 256 /\ 258 + 1 <> 256 /\ 258 <> 256 + 1 /\
  eval (_volatileRegisterWriteUInt8 mcu_le 256 0xAB ;;
        _volatileRegisterReadUInt8 mcu_le 258)%acc sram
    = eval (_volatileRegisterReadUInt8 mcu_le 258) sram /\
  eval (_volatileRegisterWriteUInt8 mcu_le 256 0xAB ;;
        _volatileRegisterReadUInt16 mcu_le 258)%acc sram
    = eval (_volatileRegisterReadUInt16 mcu_le 258) sram /\
  eval (_volatileRegisterWriteUInt16 mcu_le 256 0xAB ;;
        _volatileRegisterReadUInt8 mcu_le 258)%acc sram
    = eval (_volatileRegisterReadUInt8 mcu_le 258) sram /\
  eval (_volatileRegisterWriteUInt16 mcu_le 256 0xAB ;;
        _volatileRegisterReadUInt16 mcu_le 258)%acc sram
    = eval (_volatileRegisterReadUInt16 mcu_le 258) sram.
Proof.
  assert (Ha : is_uintptr mcu_le 256) by (unfold is_uintptr; simpl; lia).
  assert (Hb : is_uintptr mcu_le 258) by (unfold is_uintptr; simpl; lia).
  assert (N0 : 258 <> 256) by lia.
  assert (N1 : 258 + 1 <> 256) by lia.
  assert (N2 : 258 <> 256 + 1) by lia.
  destruct (read_unaffected_by_write_elsewhere mcu_le sram 256 258 0xAB Ha Hb)
    as (H88 & H816 & H168 & H1616).
  split; [exact Ha |]. split; [exact Hb |].
  split; [exact N0 |]. split; [exact N1 |]. split; [exact N2 |].
  split; [exact (H88 N0) |]. split; [exact (H816 N0 N1) |].
  split; [exact (H168 N0 N2) | exact (H1616 N0 N2 N1)].
Defined.

Lemma write16_seen_bytewise_witness :
  is_uintptr mcu_be 256 /\ is_uintptr mcu_be (256 + 1) /\ backed sram W16 256 = true /\
  eval (_volatileRegisterWriteUInt16 mcu_be 256 0x1234 ;;
        _volatileRegisterReadUInt8 mcu_be 256)%acc sram = 0x12 /\
  eval (_volatileRegisterWriteUInt16 mcu_be 256 0x1234 ;;
        _volatileRegisterReadUInt8 mcu_be (256 + 1))%acc sram = 0x34.
Proof.
  assert (Ha : is_uintptr mcu_be 256) by (unfold is_uintptr; simpl; lia).
  assert (Ha1 : is_uintptr mcu_be (256 + 1)) by (unfold is_uintptr; simpl; lia).
  assert (Hb : backed sram W16 256 = true) by reflexivity.
  split; [exact Ha |]. split; [exact Ha1 |]. split; [exact Hb |].
  exact (write16_seen_bytewise mcu_be sram 256 0x1234 Ha Ha1 Hb).
Defined.

Lemma two_write8_seen_as_word_witness :
  is_uintptr mcu_le 256 /\ is_uintptr mcu_le (256 + 1) /\ backed sram W16 256 = true /\
  eval (_volatileRegisterWriteUInt8 mcu_le 256 0x34 ;;
        _volatileRegisterWriteUInt8 mcu_le (256 + 1) 0x12 ;;
        _volatileRegisterReadUInt16 mcu_le 256)%acc sram = 0x1234.
Proof.
  assert (Ha : is_uintptr mcu_le 256) by (unfold is_uintptr; simpl; lia).
  assert (Ha1 : is_uintptr mcu_le (256 + 1)) by (unfold is_uintptr; simpl; lia).
  assert (Hb : backed sram W16 256 = true) by reflexivity.
  split; [exact Ha |]. split; [exact Ha1 |]. split; [exact Hb |].
  exact (two_write8_seen_as_word mcu_le sram 256 0x34 0x12 Ha Ha1 Hb).
Defined.

Lemma write8_updates_half_of_word_witness :
  is_uintptr mcu_le 256 /\ is_uintptr mcu_le (256 + 1) /\ backed sram W16 256 = true /\
  eval (_volatileRegisterWriteUInt16 mcu_le 256 0x1234 ;;
        _volatileRegisterWriteUInt8 mcu_le 256 0xFF ;;
        _volatileRegisterReadUInt16 mcu_le 256)%acc sram = 0x12FF.
Proof.
  assert (Ha : is_uintptr mcu_le 256) by (unfold is_uintptr; simpl; lia).
  assert (Ha1 : is_uintptr mcu_le (256 + 1)) by (unfold is_uintptr; simpl; lia).
  assert (Hb : backed sram W16 256 = true) by reflexivity.
  split; [exact Ha |]. split; [exact Ha1 |]. split; [exact Hb |].
  exact (write8_updates_half_of_word mcu_le sram 256 0x1234 0xFF Ha Ha1 Hb).
Defined.

Lemma writes_keep_bytes_witness :
  bytes_ok (ram sram) = true /\
  bytes_ok (ram (exec (_volatileRegisterWriteUInt8 mcu_le 256 0x1FF) sram)) = true /\
  bytes_ok (ram (exec (_volatileRegisterWriteUInt16 mcu_le 256 0x12345) sram)) = true.
Proof.
  assert (Hm : bytes_ok (ram sram) = true) by (vm_compute; reflexivity).
  split; [exact Hm |].
  split.
  - exact (proj1 (writes_keep_bytes mcu_le sram 256 0x1FF Hm)).
  - exact (proj2 (writes_keep_bytes mcu_le sram 256 0x12345 Hm)).
Defined.

Lemma read_then_write_back_witness :
  bytes_ok (ram sram) = true /\
  ram (exec (x <- _volatileRegisterReadUInt8 mcu_le 256 ;;
             _volatileRegisterWriteUInt8 mcu_le 256 x)%acc sram) = ram sram /\
  ram (exec (x <- _volatileRegisterReadUInt16 mcu_le 256 ;;
             _volatileRegisterWriteUInt16 mcu_le 256 x)%acc sram) = ram sram.
Proof.
  assert (Hm : bytes_ok (ram sram) = true) by (vm_compute; reflexivity).
  split; [exact Hm |].
  exact (read_then_write_back mcu_le sram 256 Hm).
Defined.

Lemma writes_to_distinct_bytes_commute_witness :
  is_uintptr mcu_le 256 /\ is_uintptr mcu_le 257 /\ 256 <> 257 /\
  ram (exec (_volatileRegisterWriteUInt8 mcu_le 256 0x11 ;;
             _volatileRegisterWriteUInt8 mcu_le 257 0x22)%acc sram)
    = ram (exec (_volatileRegisterWriteUInt8 mcu_le 257 0x22 ;;
                 _volatileRegisterWriteUInt8 mcu_le 256 0x11)%acc sram) /\
  issued_by (_volatileRegisterWriteUInt8 mcu_le 256 0x11 ;;
             _volatileRegisterWriteUInt8 mcu_le 257 0x22)%acc sram
    = [Store W8 256 0x11; Store W8 257 0x22] /\
  issued_by (_volatileRegisterWriteUInt8 mcu_le 257 0x22 ;;
             _volatileRegisterWriteUInt8 mcu_le 256 0x11)%acc sram
    = [Store W8 257 0x22; Store W8 256 0x11].
Proof.
  assert (Ha : is_uintptr mcu_le 256) by (unfold is_uintptr; simpl; lia).
  assert (Hb : is_uintptr mcu_le 257) by (unfold is_uintptr; simpl; lia).
  assert (Hne : 256 <> 257) by lia.
  split; [exact Ha |]. split; [exact Hb |]. split; [exact Hne |].
  exact (writes_to_distinct_bytes_commute mcu_le sram 256 257 0x11 0x22 Ha Hb Hne).
Defined.
